(** * SpotWebsocketStreamClient: the subscription manager of py-mexc-api

    A shallow embedding of [mexc_api/websocket/websocket_stream.py].
    The client owns a set of topic strings ([self.streams]), turns each
    public request into one topic, and talks to two kinds of outside code:
    the transport object ([MexcWebsocketApp]) and the caller's callbacks.
    Every call that leaves the client is written to a chronological
    history, so that the order of effects can be stated. *)

From stdpp Require Import gmap strings list pretty.

(** ** Python strings *)

(** [str.upper()] on ASCII text: the letters a..z move to A..Z, every other
    character stays.  Exchange symbols are ASCII; characters beyond ASCII
    are outside this model and are left as they are. *)
Definition upper_ascii (c : Ascii.ascii) : Ascii.ascii :=
  let n := Ascii.nat_of_ascii c in
  if (97 <=? n)%nat && (n <=? 122)%nat then Ascii.ascii_of_nat (n - 32) else c.

Fixpoint upper (s : string) : string :=
  match s with
  | EmptyString => EmptyString
  | String c rest => String (upper_ascii c) (upper rest)
  end.

(** ** Enumerations of [mexc_api.common.enums] *)

Module Action.
Inductive t := SUBSCRIBE | UNSUBSCRIBE.

(** Modelled from the spec: [mexc_api/common/enums.py] is not part of the
    sources; the wire format names the two method strings
    ["SUBSCRIBE"] and ["UNSUBSCRIBE"]. *)
Definition value (a : t) : string :=
  match a with
  | SUBSCRIBE => "SUBSCRIBE"
  | UNSUBSCRIBE => "UNSUBSCRIBE"
  end.

#[global] Instance eq_dec : EqDecision t.
Proof. solve_decision. Defined.
End Action.

Module StreamInterval.
(** Modelled from the spec: the members of [StreamInterval] are declared
    in [mexc_api/common/enums.py], which is not part of the sources.  A
    member is represented by the string its [.value] holds; the spec
    names one member, whose value is ["Min15"]. *)
Record t := Member { value : string }.

Definition Min15 : t := Member "Min15".
End StreamInterval.

(** ** Wire messages and the history of outside calls *)

(** The dict [{"method": action.value, "params": [stream]}]. *)
Record Message := { method : string; params : list string }.

(** The caller's callbacks are opaque callables; a handle tells them apart. *)
Inductive Callback := callback (id : nat).

(** One entry per call that leaves the client.  [SendMessage] carries, next
    to the message, the topic set as it stands at the instant of the call:
    what the transport, or anything run from inside the send, would
    observe. *)
Inductive Event (Doc : Type) :=
| SendMessage (message : Message) (seen : gset string)
| Close
| CallOnOpen (cb : Callback)
| CallOnMessage (cb : Callback) (doc : Doc).
Arguments SendMessage {Doc} message seen.
Arguments Close {Doc}.
Arguments CallOnOpen {Doc} cb.
Arguments CallOnMessage {Doc} cb doc.

(** ** The outside collaborators *)

(** Modelled from the spec: [MexcWebsocketApp] (mexc_websocket_app.py) is
    not part of the sources.  Its contract is [send(message) -> void], which
    "fails silently or raises per transport's own policy", and
    [close() -> void].  The policy is a parameter: [send_raises h m] tells
    whether [send_message m] raises after the history [h].  [json.loads]
    belongs to Python's library; it is a parameter too, [None] standing for
    a raised [JSONDecodeError], and [Doc] is the type of what it returns.

    The caller's callbacks are arbitrary callables and can raise:
    [callback_raises h] tells whether the callback call that the last entry
    of the history [h] records raises.

    Python does not say in which order a set is iterated.  The order is a
    parameter as well, [iteration_order h S] for the set [S] after the
    history [h]; all that is known of it is that it lists every member
    once. *)
Class Collaborators := {
  Doc : Type;
  json_loads : string → option Doc;
  send_raises : list (Event Doc) → Message → bool;
  callback_raises : list (Event Doc) → bool;
  iteration_order : list (Event Doc) → gset string → list string;
  iteration_order_lists_members :
    ∀ h S, iteration_order h S ≡ₚ elements S;
}.

Inductive Exn := JSONDecodeError | TransportError | CallbackError.

Inductive Outcome (A : Type) :=
| Return (a : A)
| Raise (e : Exn).
Arguments Return {A} a.
Arguments Raise {A} e.

Section Client.
Context {ext : Collaborators}.

(** The attributes of [self] that the methods read or write, and the
    history of outside calls. *)
Record State := {
  streams : gset string;
  on_open : option Callback;
  on_message : Callback;
  history : list (Event Doc);
}.

(** Python statements: state passing with exceptions. *)
Definition Py (A : Type) : Type := State → Outcome A * State.

#[global] Instance Py_ret : MRet Py := λ A a s, (Return a, s).

#[global] Instance Py_bind : MBind Py := λ A B f m s,
  match m s with
  | (Return a, s') => f a s'
  | (Raise e, s') => (Raise e, s')
  end.

Definition get : Py State := λ s, (Return s, s).

Definition raise {A} (e : Exn) : Py A := λ s, (Raise e, s).

Definition set_streams (S : gset string) (s : State) : State :=
  {| streams := S; on_open := on_open s; on_message := on_message s;
     history := history s |}.

Definition record (e : Event Doc) (s : State) : State :=
  {| streams := streams s; on_open := on_open s;
     on_message := on_message s; history := history s ++ [e] |}.

(** [self.streams.add(x)] and [self.streams.discard(x)]. *)
Definition streams_add (x : string) : Py unit :=
  λ s, (Return (), set_streams ({[x]} ∪ streams s) s).

Definition streams_discard (x : string) : Py unit :=
  λ s, (Return (), set_streams (streams s ∖ {[x]}) s).

(** [self.mexc_websocket_app.send_message(message)]. *)
Definition send_message (message : Message) : Py unit :=
  λ s,
    let s' := record (SendMessage message (streams s)) s in
    if send_raises (history s) message
    then (Raise TransportError, s')
    else (Return (), s').

(** [self.mexc_websocket_app.close()]. *)
Definition close : Py unit := λ s, (Return (), record Close s).

(** Calls of the caller's callbacks.  A call is written to the history;
    the callback comes back or raises, and its exception goes through the
    handler that called it.  The public methods a callback may call are
    calls like any other, made before the handler ends. *)
Definition call_callback (e : Event Doc) : Py unit :=
  λ s,
    let s' := record e s in
    if callback_raises (history s')
    then (Raise CallbackError, s')
    else (Return (), s').

Definition call_on_open (cb : Callback) : Py unit :=
  call_callback (CallOnOpen cb).

Definition call_on_message (cb : Callback) (doc : Doc) : Py unit :=
  call_callback (CallOnMessage cb doc).

(** [__init__]: the set starts empty, nothing has been called yet.  The
    key, the secret and the close and error callbacks go to the transport
    as they are and are not kept by the client. *)
Definition init (on_message_cb : Callback) (on_open_cb : option Callback)
  : State :=
  {| streams := ∅; on_open := on_open_cb; on_message := on_message_cb;
     history := [] |}.

(** [_change_subscription(self, stream, action)]. *)
Definition _change_subscription (stream : string) (action : Action.t)
  : Py unit :=
  streams_add stream;;
  let message :=
    {| method := Action.value action; params := [stream] |} in
  send_message message;;
  if decide (action = Action.UNSUBSCRIBE)
  then streams_discard stream
  else mret ().

(** [for x in xs: body(x)]. *)
Fixpoint for_each (xs : list string) (body : string → Py unit) : Py unit :=
  match xs with
  | [] => mret ()
  | x :: rest => body x;; for_each rest body
  end.

(** [_on_open(self, _app)]; [_app] is not used.  The loop runs over the
    members the set has when the loop starts, in the order of the
    iteration; the body only adds a topic that is already a member, so
    the set keeps its size while it is iterated (see
    [on_open_replays_over_fixed_set]). *)
Definition _on_open : Py unit :=
  self ← get;
  for_each (iteration_order (history self) (streams self))
    (λ stream, _change_subscription stream Action.SUBSCRIBE);;
  match on_open self with
  | Some cb => call_on_open cb
  | None => mret ()
  end.

(** [_on_message(self, _app, message)]; [_app] is not used. *)
Definition _on_message (message : string) : Py unit :=
  self ← get;
  match json_loads message with
  | Some doc => call_on_message (on_message self) doc
  | None => raise JSONDecodeError
  end.

(** [stop(self)]. *)
Definition stop : Py unit := close.

Definition trades (symbol : string) (action : Action.t) : Py unit :=
  _change_subscription ("spot@public.deals.v3.api@" +:+ upper symbol) action.

Definition klines (symbol : string) (interval : StreamInterval.t)
  (action : Action.t) : Py unit :=
  _change_subscription
    ("spot@public.kline.v3.api@" +:+ upper symbol +:+ "@"
       +:+ StreamInterval.value interval)
    action.

Definition diff_depth (symbol : string) (action : Action.t) : Py unit :=
  _change_subscription
    ("spot@public.increase.depth.v3.api@" +:+ upper symbol) action.

(** [level] is annotated [Literal[5, 10, 20]]; an annotation is not
    checked when the program runs, and the body formats whatever integer
    it is given. *)
Definition partial_depth (symbol : string) (level : Z) (action : Action.t)
  : Py unit :=
  _change_subscription
    ("spot@public.limit.depth.v3.api@" +:+ upper symbol +:+ "@"
       +:+ pretty level)
    action.

Definition book_ticker (symbol : string) (action : Action.t) : Py unit :=
  _change_subscription
    ("spot@public.bookTicker.v3.api@" +:+ upper symbol) action.

Definition account_updates (action : Action.t) : Py unit :=
  _change_subscription "spot@private.account.v3.api" action.

Definition account_deals (action : Action.t) : Py unit :=
  _change_subscription "spot@private.deals.v3.api" action.

Definition account_orders (action : Action.t) : Py unit :=
  _change_subscription "spot@private.orders.v3.api" action.

End Client.


(** ** Reading a history *)

(** The messages handed to the transport, oldest first. *)
Definition sends {D : Type} (h : list (Event D)) : list Message :=
  omap (λ e, match e with SendMessage m _ => Some m | _ => None end) h.

(** The topics named by those messages, oldest first. *)
Definition sent_topics {D : Type} (h : list (Event D)) : list string :=
  m ← sends h; params m.

(** The wire command for one topic. *)
Definition command (action : Action.t) (topic : string) : Message :=
  {| method := Action.value action; params := [topic] |}.

Section Scripts.
Context {ext : Collaborators}.

(** A caller's script: subscription changes issued one after the other,
    [for (stream, action) in calls: client._change_subscription(stream,
    action)]; an exception ends the script. *)
Fixpoint run_calls (calls : list (string * Action.t)) : Py unit :=
  match calls with
  | [] => mret ()
  | (stream, action) :: rest =>
      _change_subscription stream action;; run_calls rest
  end.
End Scripts.

(** The spec's words for the claim on call sequences: the most recent
    action that the sequence holds for a topic, if any. *)
Definition last_action (topic : string) (calls : list (string * Action.t))
  : option Action.t :=
  last (snd <$> filter (λ c, c.1 = topic) calls).

(** ** The public requests and the operations on a client, as data *)

(** One constructor per public method that changes a subscription, with
    the method's arguments. *)
Inductive Request :=
| Trades (symbol : string)
| Klines (symbol : string) (interval : StreamInterval.t)
| DiffDepth (symbol : string)
| PartialDepth (symbol : string) (level : Z)
| BookTicker (symbol : string)
| AccountUpdates
| AccountDeals
| AccountOrders.

(** The name of the method a request calls. *)
Definition method_name (r : Request) : string :=
  match r with
  | Trades _ => "trades"
  | Klines _ _ => "klines"
  | DiffDepth _ => "diff_depth"
  | PartialDepth _ _ => "partial_depth"
  | BookTicker _ => "book_ticker"
  | AccountUpdates => "account_updates"
  | AccountDeals => "account_deals"
  | AccountOrders => "account_orders"
  end.

(** The topic a request names: the f-string in the body of its method. *)
Definition topic_of (r : Request) : string :=
  match r with
  | Trades symbol => "spot@public.deals.v3.api@" +:+ upper symbol
  | Klines symbol interval =>
      "spot@public.kline.v3.api@" +:+ upper symbol +:+ "@"
        +:+ StreamInterval.value interval
  | DiffDepth symbol => "spot@public.increase.depth.v3.api@" +:+ upper symbol
  | PartialDepth symbol level =>
      "spot@public.limit.depth.v3.api@" +:+ upper symbol +:+ "@"
        +:+ pretty level
  | BookTicker symbol => "spot@public.bookTicker.v3.api@" +:+ upper symbol
  | AccountUpdates => "spot@private.account.v3.api"
  | AccountDeals => "spot@private.deals.v3.api"
  | AccountOrders => "spot@private.orders.v3.api"
  end.

(** What can happen to a client: the caller calls a public method, the
    transport reports that it opened or that a payload arrived, the caller
    stops the client. *)
Inductive Op :=
| Call (r : Request) (action : Action.t)
| Opened
| Received (payload : string)
| Stopped.

(** The subscription changes among the operations, oldest first. *)
Definition changes (ops : list Op) : list (string * Action.t) :=
  omap (λ op, match op with
              | Call r action => Some (topic_of r, action)
              | _ => None
              end) ops.

Definition returned {A : Type} (o : Outcome A) : bool :=
  match o with Return _ => true | Raise _ => false end.

(** The entries a replay over the topics [ts] writes while the set is
    [S]. *)
Definition replay {D : Type} (S : gset string) (ts : list string)
  : list (Event D) :=
  (λ t, SendMessage (command Action.SUBSCRIBE t) S) <$> ts.

(** A history in which every send is of a command for one topic, handed
    over while that topic is in the set. *)
Definition sends_hold_their_topic {D : Type} (h : list (Event D)) : Prop :=
  ∀ m seen, SendMessage m seen ∈ h → ∃ a t, m = command a t ∧ t ∈ seen.

Section Operations.
Context {ext : Collaborators}.

(** The transport takes every send of a replay started in [s]: whatever
    part of the iteration has been sent, the send for the next topic comes
    back. *)
Definition replay_sends_return (s : State) : Prop :=
  ∀ sent t rest,
    iteration_order (history s) (streams s) = sent ++ t :: rest →
    send_raises (history s ++ replay (streams s) sent)
      (command Action.SUBSCRIBE t) = false.

(** The call of the public method of a request. *)
Definition perform (r : Request) (action : Action.t) : Py unit :=
  match r with
  | Trades symbol => trades symbol action
  | Klines symbol interval => klines symbol interval action
  | DiffDepth symbol => diff_depth symbol action
  | PartialDepth symbol level => partial_depth symbol level action
  | BookTicker symbol => book_ticker symbol action
  | AccountUpdates => account_updates action
  | AccountDeals => account_deals action
  | AccountOrders => account_orders action
  end.

Definition step (op : Op) : Py unit :=
  match op with
  | Call r action => perform r action
  | Opened => _on_open
  | Received payload => _on_message payload
  | Stopped => stop
  end.

(** The operations run one after the other on the same client.  An
    exception goes to whoever started the operation (the caller, or the
    transport's dispatcher); the next operation finds the client as the
    previous one left it. *)
Fixpoint run_ops (ops : list Op) (s : State) : State :=
  match ops with
  | [] => s
  | op :: rest => run_ops rest (step op s).2
  end.

(** Whether every public call among the operations came back without an
    exception. *)
Fixpoint calls_returned (ops : list Op) (s : State) : bool :=
  match ops with
  | [] => true
  | op :: rest =>
      match op with
      | Call _ _ => returned (step op s).1
      | _ => true
      end && calls_returned rest (step op s).2
  end.

End Operations.

(** ** Fixtures: concrete collaborators for worked examples *)

Module Fixture.
(** A decoder that knows one document, the empty object. *)
Definition loads (payload : string) : option string :=
  if decide (payload = "{}") then Some payload else None.

(** A transport whose [send_message] never raises; the callbacks come
    back, and a set is iterated as [elements] lists it. *)
Definition reliable : Collaborators :=
  {| Doc := string; json_loads := loads; send_raises := λ _ _, false;
     callback_raises := λ _, false;
     iteration_order := λ _ S, elements S;
     iteration_order_lists_members := λ _ _, reflexivity _ |}.

(** A transport that is not connected: every [send_message] raises. *)
Definition disconnected : Collaborators :=
  {| Doc := string; json_loads := loads; send_raises := λ _ _, true;
     callback_raises := λ _, false;
     iteration_order := λ _ S, elements S;
     iteration_order_lists_members := λ _ _, reflexivity _ |}.

(** A caller whose callbacks raise, on a transport that never does. *)
Definition raising_callbacks : Collaborators :=
  {| Doc := string; json_loads := loads; send_raises := λ _ _, false;
     callback_raises := λ _, true;
     iteration_order := λ _ S, elements S;
     iteration_order_lists_members := λ _ _, reflexivity _ |}.

(** A Python that iterates a set in the reverse of that order. *)
Definition reversed : Collaborators :=
  {| Doc := string; json_loads := loads; send_raises := λ _ _, false;
     callback_raises := λ _, false;
     iteration_order := λ _ S, reverse (elements S);
     iteration_order_lists_members := λ _ S, reverse_Permutation (elements S) |}.

(** A fresh client with a message handler and an open callback. *)
Definition fresh {ext : Collaborators} : State :=
  init (callback 0) (Some (callback 1)).
End Fixture.

Module Scenario.
(** A transport that is not connected yet when the client is built: the
    first [send_message] raises, the later ones come back. *)
Definition connects_late : Collaborators :=
  {| Doc := string; json_loads := Fixture.loads;
     send_raises := λ h _, match h with [] => true | _ => false end;
     callback_raises := λ _, false;
     iteration_order := λ _ S, elements S;
     iteration_order_lists_members := λ _ _, reflexivity _ |}.

(** A day in the life of a client: subscriptions, a reconnection, a good
    and a bad payload, an unsubscribe under another spelling, a stop. *)
Definition day : list Op :=
  [Call (Trades "btcusdt") Action.SUBSCRIBE;
   Call (PartialDepth "ethusdt" 20) Action.SUBSCRIBE;
   Opened;
   Received "{}";
   Received "not json";
   Call (Trades "BtcUsdt") Action.UNSUBSCRIBE;
   Stopped;
   Call AccountDeals Action.SUBSCRIBE].
End Scenario.

(** * Properties *)

(** Upper-casing a second time changes nothing, and the length stays. *)
Lemma upper_ascii_idempotent c : upper_ascii (upper_ascii c) = upper_ascii c.
Proof. destruct c as [[] [] [] [] [] [] [] []]; reflexivity. Qed.

Lemma upper_idempotent symbol : upper (upper symbol) = upper symbol.
Proof.
  induction symbol as [|c rest IH]; [reflexivity|].
  simpl. by rewrite upper_ascii_idempotent, IH.
Qed.

Lemma upper_length symbol :
  String.length (upper symbol) = String.length symbol.
Proof.
  induction symbol as [|c rest IH]; [reflexivity|]. simpl. by rewrite IH.
Qed.

Section Properties.
Context {ext : Collaborators}.
Implicit Types (s : State) (stream topic : string) (action : Action.t).

(** What one run of [_change_subscription] does, in one equation: the
    topic is added, the command is handed to the transport while the
    topic is in the set, and the topic is discarded afterwards only for
    an unsubscribe whose send came back. *)
Lemma change_subscription_run stream action s :
  _change_subscription stream action s =
    let added := {[stream]} ∪ streams s in
    let sent :=
      record (SendMessage (command action stream) added)
        (set_streams added s) in
    if send_raises (history s) (command action stream)
    then (Raise TransportError, sent)
    else if decide (action = Action.UNSUBSCRIBE)
         then (Return (), set_streams (added ∖ {[stream]}) sent)
         else (Return (), sent).
Proof.
  unfold _change_subscription, mbind, Py_bind, streams_add, send_message,
    command; simpl.
  destruct (send_raises _ _); [reflexivity|].
  destruct (decide _); reflexivity.
Qed.

Lemma bind_run {A B} (m : Py A) (f : A → Py B) s :
  (m ≫= f) s =
    match m s with
    | (Return a, s') => f a s'
    | (Raise e, s') => (Raise e, s')
    end.
Proof. reflexivity. Qed.

Lemma change_subscription_history stream action s :
  history (_change_subscription stream action s).2 =
    history s ++
      [SendMessage (command action stream) ({[stream]} ∪ streams s)].
Proof.
  rewrite change_subscription_run; simpl.
  destruct (send_raises _ _); [reflexivity|].
  destruct (decide _); reflexivity.
Qed.

Lemma change_subscription_callbacks stream action s :
  on_open (_change_subscription stream action s).2 = on_open s ∧
  on_message (_change_subscription stream action s).2 = on_message s.
Proof.
  rewrite change_subscription_run; simpl.
  destruct (send_raises _ _); [done|].
  destruct (decide _); done.
Qed.

Lemma sends_app {D} (h1 h2 : list (Event D)) :
  sends (h1 ++ h2) = sends h1 ++ sends h2.
Proof. unfold sends. apply omap_app. Qed.

Lemma sent_topics_app {D} (h1 h2 : list (Event D)) :
  sent_topics (h1 ++ h2) = sent_topics h1 ++ sent_topics h2.
Proof. unfold sent_topics. rewrite sends_app. apply bind_app. Qed.

Lemma change_subscription_streams stream action s :
  streams (_change_subscription stream action s).2 =
    if send_raises (history s) (command action stream)
    then {[stream]} ∪ streams s
    else if decide (action = Action.UNSUBSCRIBE)
         then streams s ∖ {[stream]}
         else {[stream]} ∪ streams s.
Proof.
  rewrite change_subscription_run; simpl.
  destruct (send_raises _ _); [reflexivity|].
  destruct (decide _); simpl; [|reflexivity].
  set_solver.
Qed.

Lemma change_subscription_outcome stream action s :
  (_change_subscription stream action s).1 =
    if send_raises (history s) (command action stream)
    then Raise TransportError
    else Return ().
Proof.
  rewrite change_subscription_run; simpl.
  destruct (send_raises _ _); [reflexivity|].
  destruct (decide _); reflexivity.
Qed.

(** A member of a duplicate-free list is counted once. *)
Lemma NoDup_count_one (x : string) (l : list string) :
  NoDup l → x ∈ l → length (filter (λ y, y = x) l) = 1.
Proof.
  induction 1 as [|y l Hy Hl IH]; intros Hx.
  - inversion Hx.
  - rewrite filter_cons. destruct (decide (y = x)) as [->|Hne].
    + simpl. f_equal.
      destruct (filter (λ y, y = x) l) as [|z rest] eqn:Hf; [done|].
      assert (Hz : z ∈ filter (λ y, y = x) l) by (rewrite Hf; left).
      apply list_elem_of_filter in Hz as [-> Hz]. contradiction.
    + apply IH. apply elem_of_cons in Hx as [->|Hx]; [done|exact Hx].
Qed.

(** C5: for every topic, change-subscription(topic, subscribe) first adds
    the topic to the set and then makes exactly one send, of the message
    (method SUBSCRIBE, params the one-element list holding the topic): the
    call appends a single entry to the history, that entry is the send,
    the set observed by the send already holds the topic, and the set
    after the call is the starting set with the topic added. *)
Theorem subscribe_adds_then_sends_one_command topic s :
  let after := (_change_subscription topic Action.SUBSCRIBE s).2 in
  history after =
    history s ++
      [SendMessage {| method := "SUBSCRIBE"; params := [topic] |}
         ({[topic]} ∪ streams s)] ∧
  topic ∈ ({[topic]} ∪ streams s : gset string) ∧
  streams after = {[topic]} ∪ streams s.
Proof.
  cbn zeta. split; [|split].
  - apply change_subscription_history.
  - set_solver.
  - rewrite change_subscription_streams.
    destruct (send_raises _ _); reflexivity.
Qed.

(** C2, as amended: for every topic and every starting set,
    change-subscription(topic, unsubscribe) adds the topic to the set,
    then makes its one send, of the UNSUBSCRIBE command, and removes the
    topic only after a send that came back.  The set observed at the
    instant of the send is the starting set with the topic added; it is
    the starting set exactly when the topic was a member already. *)
Theorem unsubscribe_adds_sends_then_removes topic s :
  let r := _change_subscription topic Action.UNSUBSCRIBE s in
  let seen : gset string := {[topic]} ∪ streams s in
  history r.2 =
    history s ++
      [SendMessage {| method := "UNSUBSCRIBE"; params := [topic] |} seen] ∧
  (seen = streams s ↔ topic ∈ streams s) ∧
  r.1 = (if send_raises (history s) (command Action.UNSUBSCRIBE topic)
         then Raise TransportError else Return ()) ∧
  streams r.2 =
    (if send_raises (history s) (command Action.UNSUBSCRIBE topic)
     then seen else streams s ∖ {[topic]}) ∧
  (if send_raises (history s) (command Action.UNSUBSCRIBE topic)
   then topic ∈ streams r.2 else topic ∉ streams r.2).
Proof.
  cbn zeta. split; [|split; [|split; [|split]]].
  - apply change_subscription_history.
  - set_solver.
  - apply change_subscription_outcome.
  - rewrite change_subscription_streams.
    destruct (send_raises _ _); reflexivity.
  - rewrite change_subscription_streams.
    destruct (send_raises _ _); simpl; set_solver.
Qed.

(** C10, as amended: for every topic T that is not in the set, a
    change-subscription(T, unsubscribe) whose send comes back makes
    exactly one send, of the UNSUBSCRIBE command for T, and leaves the
    set equal to the set before the call. *)
Theorem unsubscribe_non_member_sends_and_keeps_set topic s :
  topic ∉ streams s →
  send_raises (history s) (command Action.UNSUBSCRIBE topic) = false →
  let r := _change_subscription topic Action.UNSUBSCRIBE s in
  r.1 = Return () ∧
  sends (history r.2) =
    sends (history s) ++
      [{| method := "UNSUBSCRIBE"; params := [topic] |}] ∧
  length (history r.2) = S (length (history s)) ∧
  streams r.2 = streams s.
Proof.
  intros Hnot Hsend. cbn zeta.
  rewrite change_subscription_outcome, change_subscription_history,
    change_subscription_streams, Hsend, sends_app, length_app; simpl.
  repeat split; [lia|].
  apply set_eq; intros x; set_solver.
Qed.

(** C7: for every topic, two subscribes in succession leave the set
    holding the topic exactly once (the set is the starting set with the
    topic added, and the topic is counted once among its elements) while
    two SUBSCRIBE commands go to the transport. *)
Theorem subscribe_twice_one_member_two_commands topic s :
  let once := (_change_subscription topic Action.SUBSCRIBE s).2 in
  let twice := (_change_subscription topic Action.SUBSCRIBE once).2 in
  streams twice = {[topic]} ∪ streams s ∧
  length (filter (λ x, x = topic) (elements (streams twice))) = 1 ∧
  size (streams twice) = S (size (streams s ∖ {[topic]})) ∧
  sends (history twice) =
    sends (history s) ++
      [{| method := "SUBSCRIBE"; params := [topic] |};
       {| method := "SUBSCRIBE"; params := [topic] |}].
Proof.
  cbn zeta.
  assert (Hset : streams (_change_subscription topic Action.SUBSCRIBE
                   (_change_subscription topic Action.SUBSCRIBE s).2).2
                 = {[topic]} ∪ streams s).
  { rewrite !change_subscription_streams.
    apply set_eq; intros x.
    repeat destruct (send_raises _ _); simpl; set_solver. }
  split; [exact Hset|]. rewrite Hset. split; [|split].
  - apply NoDup_count_one; [apply NoDup_elements|].
    apply elem_of_elements. set_solver.
  - replace ({[topic]} ∪ streams s) with ({[topic]} ∪ streams s ∖ {[topic]}).
    + rewrite size_union by set_solver. by rewrite size_singleton.
    + apply set_eq; intros x. destruct (decide (x = topic)); set_solver.
  - rewrite !change_subscription_history, !sends_app, <- app_assoc.
    reflexivity.
Qed.

(** C9: stop() closes the transport, which is its only effect: for every
    topic set S held before the call, the set after the call is S. *)
Theorem stop_closes_and_keeps_streams s :
  (stop s).1 = Return () ∧
  history (stop s).2 = history s ++ [Close] ∧
  streams (stop s).2 = streams s.
Proof. repeat split. Qed.

(** C8: a payload that [json.loads] rejects makes the dispatch raise the
    decoding error to its invoker, with the message handler not called
    and the topic set (and all of the state) untouched; a payload that
    decodes is handed, as decoded, to the message handler, once, and the
    dispatch ends as the handler does: it returns when the handler
    returns and lets the handler's exception through. *)
Theorem on_message_decodes_or_propagates payload s :
  let r := _on_message payload s in
  match json_loads payload with
  | None =>
      r.1 = Raise JSONDecodeError ∧ history r.2 = history s ∧
      streams r.2 = streams s
  | Some doc =>
      r.1 = (if callback_raises
                  (history s ++ [CallOnMessage (on_message s) doc])
             then Raise CallbackError else Return ()) ∧
      history r.2 = history s ++ [CallOnMessage (on_message s) doc] ∧
      streams r.2 = streams s
  end.
Proof.
  cbn zeta. unfold _on_message, mbind, Py_bind, get; simpl.
  destruct (json_loads payload) as [doc|]; [|repeat split].
  unfold call_on_message, call_callback; simpl.
  destruct (callback_raises _); repeat split.
Qed.

(** C1, as amended: partialDepth makes no check of [level] when it runs
    (the restriction to 5, 10 and 20 is the parameter's annotation only).
    For every symbol and every integer level the call builds the topic
    spot@public.limit.depth.v3.api@SYMBOL@level and runs
    change-subscription on it: one send, with the topic in the set, and
    no failure other than the transport's own.  For "ethusdt" and level
    20 the topic is spot@public.limit.depth.v3.api@ETHUSDT@20. *)
Theorem partial_depth_formats_any_level symbol level action s :
  let topic :=
    "spot@public.limit.depth.v3.api@" +:+ upper symbol +:+ "@"
      +:+ pretty level in
  let r := partial_depth symbol level action s in
  r = _change_subscription topic action s ∧
  history r.2 =
    history s ++
      [SendMessage {| method := Action.value action; params := [topic] |}
         ({[topic]} ∪ streams s)] ∧
  r.1 = (if send_raises (history s) (command action topic)
         then Raise TransportError else Return ()) ∧
  sent_topics (history (partial_depth "ethusdt" 20 action s).2) =
    sent_topics (history s) ++
      ["spot@public.limit.depth.v3.api@ETHUSDT@20"].
Proof.
  cbn zeta. unfold partial_depth. split; [reflexivity|split; [|split]].
  - apply change_subscription_history.
  - apply change_subscription_outcome.
  - rewrite change_subscription_history, sent_topics_app. reflexivity.
Qed.

(** C6: for every symbol and every interval, klines builds the topic
    spot@public.kline.v3.api@SYMBOL@interval, SYMBOL being the
    upper-cased symbol and interval the member's value as it is, and
    hands it to change-subscription; klines("btcusdt", Min15) builds
    spot@public.kline.v3.api@BTCUSDT@Min15. *)
Theorem klines_builds_topic symbol interval action s :
  let topic :=
    "spot@public.kline.v3.api@" +:+ upper symbol +:+ "@"
      +:+ StreamInterval.value interval in
  klines symbol interval action s = _change_subscription topic action s ∧
  history (klines symbol interval action s).2 =
    history s ++
      [SendMessage {| method := Action.value action; params := [topic] |}
         ({[topic]} ∪ streams s)] ∧
  sent_topics
    (history (klines "btcusdt" StreamInterval.Min15 action s).2) =
    sent_topics (history s) ++ ["spot@public.kline.v3.api@BTCUSDT@Min15"].
Proof.
  cbn zeta. unfold klines. split; [reflexivity|split].
  - apply change_subscription_history.
  - rewrite change_subscription_history, sent_topics_app. reflexivity.
Qed.

(** *** Replay when the transport opens *)

Lemma sends_of_commands {D} action (seen : gset string) (ts : list string) :
  sends ((λ t, @SendMessage D (command action t) seen) <$> ts) =
    command action <$> ts.
Proof.
  induction ts as [|t ts IH]; [done|].
  rewrite !fmap_cons, <- IH. reflexivity.
Qed.

Lemma topics_of_commands action (ts : list string) :
  (command action <$> ts) ≫= params = ts.
Proof.
  induction ts as [|t ts IH]; [done|].
  rewrite fmap_cons, bind_cons, IH. reflexivity.
Qed.

(** The loop of [_on_open] over topics that are members of the set: the
    set is the same at every send and after the loop, whatever the
    transport does, so iterating the elements taken at the start is the
    same as iterating the set itself.  The loop sends for a prefix of the
    topics, and for all of them when it ends without an exception. *)
Lemma on_open_replays_over_fixed_set (xs : list string) s :
  (∀ x, x ∈ xs → x ∈ streams s) →
  let r :=
    for_each xs (λ stream, _change_subscription stream Action.SUBSCRIBE) s
  in
  streams r.2 = streams s ∧ on_open r.2 = on_open s ∧
  ∃ k, k ≤ length xs ∧
    history r.2 =
      history s ++
        ((λ t, SendMessage (command Action.SUBSCRIBE t) (streams s))
           <$> take k xs) ∧
    (r.1 = Return () → k = length xs).
Proof.
  cbn zeta. revert s. induction xs as [|x xs IH]; intros s Hin.
  - simpl. split; [done|split; [done|]].
    exists 0. simpl. rewrite app_nil_r. split; [lia|done].
  - assert (Hx : {[x]} ∪ streams s = streams s).
    { apply subseteq_union_1_L. apply singleton_subseteq_l, Hin. left. }
    simpl. rewrite bind_run.
    pose proof (change_subscription_outcome x Action.SUBSCRIBE s) as Ho.
    pose proof (change_subscription_streams x Action.SUBSCRIBE s) as Hs.
    pose proof (change_subscription_history x Action.SUBSCRIBE s) as Hh.
    pose proof (change_subscription_callbacks x Action.SUBSCRIBE s) as [Hc _].
    destruct (_change_subscription x Action.SUBSCRIBE s) as [o s1].
    simpl in Ho, Hs, Hh, Hc. rewrite Hx in Hh.
    assert (Hs1 : streams s1 = streams s).
    { rewrite Hs. destruct (send_raises _ _); simpl; rewrite ?Hx; done. }
    destruct (send_raises _ _); subst o.
    + simpl. split; [done|split; [done|]].
      exists 1. simpl. rewrite Hh. repeat split; [lia|done].
    + destruct (IH s1) as (IH1 & IH2 & k & Hk & IHh & IHo).
      { intros y Hy. rewrite Hs1. apply Hin. by right. }
      split; [congruence|split; [congruence|]].
      exists (S k). split; [simpl; lia|]. split.
      * rewrite IHh, Hh, Hs1, <- app_assoc. reflexivity.
      * intros Hr. f_equal. by apply IHo.
Qed.

Lemma iteration_order_elem h (S : gset string) (x : string) :
  x ∈ iteration_order h S ↔ x ∈ S.
Proof. rewrite iteration_order_lists_members. apply elem_of_elements. Qed.

Lemma iteration_order_NoDup h (S : gset string) :
  NoDup (iteration_order h S).
Proof. rewrite iteration_order_lists_members. apply NoDup_elements. Qed.

Lemma iteration_order_length h (S : gset string) :
  length (iteration_order h S) = size S.
Proof. by rewrite iteration_order_lists_members. Qed.

(** The loop of [_on_open] on a transport that takes each of its sends:
    it ends normally, after a send for every topic. *)
Lemma replay_loop_returns (xs : list string) s :
  (∀ x, x ∈ xs → x ∈ streams s) →
  (∀ sent t rest,
     xs = sent ++ t :: rest →
     send_raises (history s ++ replay (streams s) sent)
       (command Action.SUBSCRIBE t) = false) →
  let r :=
    for_each xs (λ stream, _change_subscription stream Action.SUBSCRIBE) s
  in
  r.1 = Return () ∧ streams r.2 = streams s ∧ on_open r.2 = on_open s ∧
  history r.2 = history s ++ replay (streams s) xs.
Proof.
  cbn zeta. revert s. induction xs as [|x xs IH]; intros s Hin Hsend.
  - simpl. by rewrite app_nil_r.
  - assert (Hx : {[x]} ∪ streams s = streams s).
    { apply subseteq_union_1_L. apply singleton_subseteq_l, Hin. left. }
    simpl. rewrite bind_run.
    pose proof (change_subscription_outcome x Action.SUBSCRIBE s) as Ho.
    pose proof (change_subscription_streams x Action.SUBSCRIBE s) as Hs.
    pose proof (change_subscription_history x Action.SUBSCRIBE s) as Hh.
    pose proof (change_subscription_callbacks x Action.SUBSCRIBE s) as [Hc _].
    destruct (_change_subscription x Action.SUBSCRIBE s) as [o s1].
    simpl in Ho, Hs, Hh, Hc. rewrite Hx in Hh.
    pose proof (Hsend [] x xs eq_refl) as Hfirst.
    simpl in Hfirst. rewrite app_nil_r in Hfirst.
    rewrite Hfirst in Ho, Hs. simpl in Hs. rewrite Hx in Hs. subst o.
    destruct (IH s1) as (IH1 & IH2 & IH3 & IH4).
    + intros y Hy. rewrite Hs. apply Hin. by right.
    + intros sent t rest ->. rewrite Hh, Hs, <- app_assoc.
      apply (Hsend (x :: sent) t rest eq_refl).
    + split; [done|]. split; [congruence|]. split; [congruence|].
      rewrite IH4, Hh, Hs, <- app_assoc. reflexivity.
Qed.

(** C4, as amended: when the transport takes every send of the replay,
    the transport-opened handler makes, for the topic set S held at that
    moment, one send per element of S and no other, each of the SUBSCRIBE
    command for that element, in some order, and only then calls the
    registered open callback (none when no callback is registered); the
    set is S at every send and afterwards.  For a set of two topics this
    is two commands. *)
Theorem on_open_replays_every_topic_then_calls_back s :
  replay_sends_return s →
  let after := (_on_open s).2 in
  (∃ order,
     order ≡ₚ elements (streams s) ∧
     history after =
       history s ++
         ((λ t, SendMessage {| method := "SUBSCRIBE"; params := [t] |}
                  (streams s)) <$> order) ++
         match on_open s with Some cb => [CallOnOpen cb] | None => [] end) ∧
  length (sends (history after)) =
    length (sends (history s)) + size (streams s) ∧
  (∀ t, length (filter (λ x, x = t) (sent_topics (history after))) =
        length (filter (λ x, x = t) (sent_topics (history s))) +
          (if decide (t ∈ streams s) then 1 else 0)) ∧
  streams after = streams s.
Proof.
  intros Hsend. cbn zeta.
  unfold _on_open. rewrite !bind_run. unfold get. simpl. rewrite bind_run.
  destruct (replay_loop_returns (iteration_order (history s) (streams s)) s)
    as (Ho & Hs & Hcb & Hh).
  { intros x. apply iteration_order_elem. }
  { exact Hsend. }
  destruct (for_each _ _ s) as [o s1]; simpl in Ho, Hs, Hcb, Hh. subst o.
  set (order := iteration_order (history s) (streams s)) in *.
  assert (Hhist : history
    (match on_open s with
     | Some cb => call_on_open cb
     | None => mret ()
     end s1).2 =
    history s ++ replay (streams s) order ++
      match on_open s with Some cb => [CallOnOpen cb] | None => [] end).
  { destruct (on_open s) as [cb|]; simpl.
    - unfold call_on_open, call_callback; simpl.
      destruct (callback_raises _); simpl; by rewrite Hh, <- app_assoc.
    - by rewrite Hh, app_nil_r. }
  assert (Hstreams : streams
    (match on_open s with
     | Some cb => call_on_open cb
     | None => mret ()
     end s1).2 = streams s).
  { destruct (on_open s) as [cb|]; simpl; [|done].
    unfold call_on_open, call_callback; simpl.
    by destruct (callback_raises _). }
  assert (Hsends : sends (history
    (match on_open s with
     | Some cb => call_on_open cb
     | None => mret ()
     end s1).2) =
    sends (history s) ++ (command Action.SUBSCRIBE <$> order)).
  { rewrite Hhist, !sends_app.
    replace (sends match on_open s with
                   | Some cb => [CallOnOpen cb]
                   | None => []
                   end) with (@nil Message) by (by destruct (on_open s)).
    rewrite app_nil_r. f_equal.
    apply (sends_of_commands Action.SUBSCRIBE). }
  split; [|split; [|split]].
  - exists order. split; [apply iteration_order_lists_members|exact Hhist].
  - rewrite Hsends, length_app, length_fmap.
    unfold order. by rewrite iteration_order_length.
  - intros t. unfold sent_topics. rewrite Hsends, bind_app, filter_app,
      length_app. f_equal.
    rewrite topics_of_commands.
    destruct (decide (t ∈ streams s)) as [Ht|Ht].
    + apply NoDup_count_one; [apply iteration_order_NoDup|].
      by apply iteration_order_elem.
    + apply length_zero_iff_nil.
      destruct (filter _ _) as [|z rest] eqn:Hf; [done|].
      assert (Hz : z ∈ filter (λ x, x = t) order) by (rewrite Hf; left).
      apply list_elem_of_filter in Hz as [-> Hz].
      by apply iteration_order_elem in Hz.
  - exact Hstreams.
Qed.

(** *** Sequences of calls *)

Lemma last_action_cons topic stream action calls :
  last_action topic ((stream, action) :: calls) =
    match last_action topic calls with
    | Some a => Some a
    | None => if decide (stream = topic) then Some action else None
    end.
Proof.
  unfold last_action. rewrite filter_cons. simpl.
  destruct (decide (stream = topic)).
  - rewrite fmap_cons, last_cons. reflexivity.
  - by destruct (last _).
Qed.






End Properties.

(** * Further properties of the client *)

(** ** Topics *)

Lemma append_inv_head (p x y : string) : p +:+ x = p +:+ y → x = y.
Proof.
  induction p as [|c p IH]; simpl; [done|]. intros [= H]. by apply IH.
Qed.

(** X1: requests of two different public methods never name the same
    topic, whatever their arguments are. *)
Theorem topics_of_different_methods_differ (r1 r2 : Request) :
  method_name r1 ≠ method_name r2 → topic_of r1 ≠ topic_of r2.
Proof.
  destruct r1, r2; simpl; intros Hm H;
    first [by destruct Hm | discriminate H].
Qed.

(** X2: which arguments name the same topic.  For trades, diff_depth and
    book_ticker two symbols name one topic exactly when they are equal
    once upper-cased; for one symbol, partial_depth topics are equal
    exactly when the levels are, and klines topics exactly when the
    interval values are. *)
Theorem topics_of_one_method (symbol symbol' : string) :
  (topic_of (Trades symbol) = topic_of (Trades symbol') ↔
   upper symbol = upper symbol') ∧
  (topic_of (DiffDepth symbol) = topic_of (DiffDepth symbol') ↔
   upper symbol = upper symbol') ∧
  (topic_of (BookTicker symbol) = topic_of (BookTicker symbol') ↔
   upper symbol = upper symbol') ∧
  (∀ level level',
     topic_of (PartialDepth symbol level) =
       topic_of (PartialDepth symbol level') ↔ level = level') ∧
  (∀ interval interval',
     topic_of (Klines symbol interval) = topic_of (Klines symbol interval') ↔
     StreamInterval.value interval = StreamInterval.value interval').
Proof.
  unfold topic_of. repeat split; try (intros ->; reflexivity).
  - apply append_inv_head.
  - apply append_inv_head.
  - apply append_inv_head.
  - intros H. do 3 apply append_inv_head in H.
    by apply (inj pretty) in H.
  - intros H. by do 3 apply append_inv_head in H.
Qed.

Section MoreProperties.
Context {ext : Collaborators}.
Implicit Types (s : State) (stream topic : string) (action : Action.t).

(** Every public method is [_change_subscription] on its topic. *)
Lemma perform_topic (r : Request) action :
  perform r action = _change_subscription (topic_of r) action.
Proof. destruct r; reflexivity. Qed.

(** X3: the symbol is read without regard to case: two symbols that are
    equal once upper-cased make each public method do the same thing. *)
Theorem symbol_case_is_ignored (symbol symbol' : string) :
  upper symbol = upper symbol' →
  (∀ action, trades symbol action = trades symbol' action) ∧
  (∀ interval action,
     klines symbol interval action = klines symbol' interval action) ∧
  (∀ action, diff_depth symbol action = diff_depth symbol' action) ∧
  (∀ level action,
     partial_depth symbol level action = partial_depth symbol' level action) ∧
  (∀ action, book_ticker symbol action = book_ticker symbol' action).
Proof.
  intros H.
  unfold trades, klines, diff_depth, partial_depth, book_ticker.
  rewrite H. repeat split.
Qed.

(** ** One call *)

(** X4: a subscription change touches the membership of its own topic
    only: every other topic is in the set after the call exactly when it
    was before, whatever the transport does. *)
Theorem change_subscription_frame stream action s (other : string) :
  other ≠ stream →
  (other ∈ streams (_change_subscription stream action s).2 ↔
   other ∈ streams s).
Proof.
  intros Hne. rewrite change_subscription_streams.
  destruct (send_raises _ _); [set_solver|].
  destruct (decide _); set_solver.
Qed.

(** X5: subscribe, then unsubscribe, to a topic that was not in the set:
    when the send of the unsubscribe comes back, the set is again what it
    was before the two calls, and the transport was handed the SUBSCRIBE
    command and then the UNSUBSCRIBE command. *)
Theorem subscribe_then_unsubscribe_restores topic s :
  topic ∉ streams s →
  let once := (_change_subscription topic Action.SUBSCRIBE s).2 in
  let r := _change_subscription topic Action.UNSUBSCRIBE once in
  r.1 = Return () →
  streams r.2 = streams s ∧
  sends (history r.2) =
    sends (history s) ++
      [command Action.SUBSCRIBE topic; command Action.UNSUBSCRIBE topic].
Proof.
  intros Hnot once r Hret. subst once r.
  rewrite change_subscription_outcome in Hret.
  rewrite !change_subscription_history, !sends_app, <- app_assoc.
  split; [|reflexivity].
  rewrite (change_subscription_streams topic Action.UNSUBSCRIBE).
  destruct (send_raises _ _); [discriminate|]. simpl.
  rewrite change_subscription_streams.
  destruct (send_raises _ _); simpl; set_solver.
Qed.

(** X6: a script that runs to its end hands the transport one command per
    call, the command of that call, in the order of the calls: nothing is
    merged, dropped or reordered. *)
Theorem run_calls_sends_in_order (calls : list (string * Action.t)) s :
  (run_calls calls s).1 = Return () →
  sends (history (run_calls calls s).2) =
    sends (history s) ++ ((λ c, command c.2 c.1) <$> calls).
Proof.
  revert s. induction calls as [|[t a] calls IH]; intros s Hret.
  - simpl. by rewrite app_nil_r.
  - simpl in *. rewrite bind_run in *.
    pose proof (change_subscription_outcome t a s) as Ho.
    pose proof (change_subscription_history t a s) as Hh.
    destruct (_change_subscription t a s) as [o s1]. simpl in Ho, Hh.
    destruct (send_raises _ _); subst o; [discriminate|].
    rewrite (IH s1 Hret), Hh, sends_app, <- app_assoc. reflexivity.
Qed.

(** ** The transport opens *)

(** The loop of [_on_open], with its outcome: it ends normally after a
    send for each topic, or with the transport's exception at the first
    send that raises. *)
Lemma replay_loop_run (xs : list string) s :
  (∀ x, x ∈ xs → x ∈ streams s) →
  let r :=
    for_each xs (λ stream, _change_subscription stream Action.SUBSCRIBE) s
  in
  streams r.2 = streams s ∧ on_open r.2 = on_open s ∧
  match r.1 with
  | Return _ => history r.2 = history s ++ replay (streams s) xs
  | Raise e =>
      e = TransportError ∧
      ∃ k, k < length xs ∧
        history r.2 = history s ++ replay (streams s) (take (S k) xs)
  end.
Proof.
  cbn zeta. revert s. induction xs as [|x xs IH]; intros s Hin.
  - simpl. by rewrite app_nil_r.
  - assert (Hx : {[x]} ∪ streams s = streams s).
    { apply subseteq_union_1_L. apply singleton_subseteq_l, Hin. left. }
    simpl. rewrite bind_run.
    pose proof (change_subscription_outcome x Action.SUBSCRIBE s) as Ho.
    pose proof (change_subscription_streams x Action.SUBSCRIBE s) as Hs.
    pose proof (change_subscription_history x Action.SUBSCRIBE s) as Hh.
    pose proof (change_subscription_callbacks x Action.SUBSCRIBE s) as [Hc _].
    destruct (_change_subscription x Action.SUBSCRIBE s) as [o s1].
    simpl in Ho, Hs, Hh, Hc. rewrite Hx in Hh.
    assert (Hs1 : streams s1 = streams s).
    { rewrite Hs. destruct (send_raises _ _); simpl; rewrite ?Hx; done. }
    destruct (send_raises _ _); subst o; simpl.
    + split; [done|]. split; [done|]. split; [done|].
      exists 0. split; [lia|]. by rewrite take_0.
    + destruct (IH s1) as (IH1 & IH2 & IH3).
      { intros y Hy. rewrite Hs1. apply Hin. by right. }
      split; [congruence|]. split; [congruence|].
      destruct (for_each xs _ s1).1 as [[]|e].
      * rewrite IH3, Hh, Hs1, <- app_assoc. reflexivity.
      * destruct IH3 as (-> & k & Hk & IH3). split; [done|].
        exists (S k). split; [lia|].
        rewrite IH3, Hh, Hs1, <- app_assoc. reflexivity.
Qed.



(** What the open handler writes, for every way it can end: sends for
    the first [k] members of the iteration, then entries that are no
    sends. *)
Lemma on_open_history s :
  ∃ k tail,
    k ≤ size (streams s) ∧
    history (_on_open s).2 =
      history s ++
        replay (streams s)
          (take k (iteration_order (history s) (streams s))) ++ tail ∧
    sends tail = [] ∧
    ((_on_open s).1 = Return () → k = size (streams s)) ∧
    streams (_on_open s).2 = streams s.
Proof.
  unfold _on_open. rewrite !bind_run. unfold get. simpl. rewrite bind_run.
  destruct (replay_loop_run (iteration_order (history s) (streams s)) s)
    as (Hs & Hcb & Hr).
  { intros x. apply iteration_order_elem. }
  pose proof (iteration_order_length (history s) (streams s)) as Hlen.
  set (order := iteration_order (history s) (streams s)) in *.
  destruct (for_each _ _ s) as [[[]|e] s1]; simpl in *.
  - exists (size (streams s)),
      (match on_open s with Some cb => [CallOnOpen cb] | None => [] end).
    rewrite <- Hlen, firstn_all.
    split; [lia|]. split; [|split; [|split]].
    + destruct (on_open s) as [cb|]; simpl.
      * unfold call_on_open, call_callback; simpl.
        destruct (callback_raises _); simpl; by rewrite Hr, <- app_assoc.
      * by rewrite Hr, !app_nil_r.
    + by destruct (on_open s).
    + done.
    + destruct (on_open s) as [cb|]; simpl; [|done].
      unfold call_on_open, call_callback; simpl.
      by destruct (callback_raises _).
  - destruct Hr as (-> & k & Hk & Hr). exists (S k), [].
    split; [lia|]. split; [by rewrite app_nil_r|]. done.
Qed.

Lemma sent_topics_replay {D} (S : gset string) (ts : list string) :
  sent_topics (@replay D S ts) = ts.
Proof.
  unfold sent_topics, replay.
  rewrite (sends_of_commands Action.SUBSCRIBE). apply topics_of_commands.
Qed.

Lemma count_absent (x : string) (l : list string) :
  x ∉ l → filter (λ y, y = x) l = [].
Proof.
  intros Hx. destruct (filter _ l) as [|z rest] eqn:Hf; [done|].
  assert (Hz : z ∈ filter (λ y, y = x) l) by (rewrite Hf; left).
  apply list_elem_of_filter in Hz as [-> Hz]. contradiction.
Qed.

(** X9: a subscribe is not lost when its own send raises: the topic is in
    the set after the call whatever the transport did, and the next open
    handler that runs to its end sends the SUBSCRIBE command for it, once.
    Counting the call's own send, the topic has then been sent twice more
    than before the call. *)
Theorem subscribe_is_replayed_on_open topic s :
  let s1 := (_change_subscription topic Action.SUBSCRIBE s).2 in
  (_on_open s1).1 = Return () →
  topic ∈ streams (_on_open s1).2 ∧
  length (filter (λ x, x = topic) (sent_topics (history (_on_open s1).2))) =
    length (filter (λ x, x = topic) (sent_topics (history s))) + 2.
Proof.
  intros s1 Hret.
  destruct (on_open_history s1) as (k & tail & _ & Hh & Htail & Hk & Hs).
  assert (Hin : topic ∈ streams s1).
  { subst s1. rewrite change_subscription_streams.
    destruct (send_raises _ _); set_solver. }
  split; [by rewrite Hs|].
  rewrite Hh, (Hk Hret).
  rewrite <- (iteration_order_length (history s1) (streams s1)), firstn_all.
  assert (Ht : sent_topics tail = []) by (unfold sent_topics; by rewrite Htail).
  rewrite !sent_topics_app, sent_topics_replay, Ht, app_nil_r.
  subst s1. rewrite change_subscription_history, sent_topics_app.
  rewrite !filter_app, !length_app.
  rewrite (NoDup_count_one topic (iteration_order _ _));
    [|apply iteration_order_NoDup|by apply iteration_order_elem].
  unfold sent_topics at 2, sends. simpl.
  rewrite filter_cons, decide_True by done. simpl. lia.
Qed.

(** X10: a topic whose unsubscribe came back is not replayed: the next
    open handler, however it ends, makes no send for it, and the topic is
    not in the set afterwards. *)
Theorem unsubscribed_topic_is_not_replayed topic s :
  let r := _change_subscription topic Action.UNSUBSCRIBE s in
  r.1 = Return () →
  (topic ∉ streams (_on_open r.2).2) ∧
  filter (λ x, x = topic) (sent_topics (history (_on_open r.2).2)) =
    filter (λ x, x = topic) (sent_topics (history r.2)).
Proof.
  intros r Hret.
  destruct (on_open_history r.2) as (k & tail & _ & Hh & Htail & _ & Hs).
  assert (Hout : topic ∉ streams r.2).
  { subst r. rewrite change_subscription_outcome in Hret.
    rewrite change_subscription_streams.
    destruct (send_raises _ _); [discriminate|]. simpl. set_solver. }
  split; [by rewrite Hs|].
  assert (Ht : sent_topics tail = []) by (unfold sent_topics; by rewrite Htail).
  rewrite Hh, !sent_topics_app, sent_topics_replay, Ht.
  rewrite app_nil_r, filter_app.
  rewrite (count_absent topic (take k _)); [by rewrite app_nil_r|].
  intros Hin. apply subseteq_take, iteration_order_elem in Hin.
  contradiction.
Qed.

(** X14: an unsubscribe whose send raises leaves its topic in the set,
    also when the topic was not subscribed before; the next open handler
    that runs to its end then sends the SUBSCRIBE command for that
    topic. *)
Theorem failed_unsubscribe_is_subscribed_on_open topic s :
  let r := _change_subscription topic Action.UNSUBSCRIBE s in
  r.1 = Raise TransportError →
  (_on_open r.2).1 = Return () →
  topic ∈ streams (_on_open r.2).2 ∧
  ∃ before after,
    history (_on_open r.2).2 =
      history r.2 ++ before ++
        [SendMessage (command Action.SUBSCRIBE topic) (streams r.2)] ++ after.
Proof.
  intros r Hraise Hret.
  destruct (on_open_history r.2) as (k & tail & _ & Hh & _ & Hk & Hs).
  assert (Hin : topic ∈ streams r.2).
  { subst r. rewrite change_subscription_outcome in Hraise.
    rewrite change_subscription_streams.
    destruct (send_raises _ _); [set_solver|discriminate]. }
  split; [by rewrite Hs|].
  rewrite (Hk Hret) in Hh.
  rewrite <- (iteration_order_length (history r.2) (streams r.2)),
    firstn_all in Hh.
  apply (iteration_order_elem (history r.2)), list_elem_of_split in Hin
    as (l1 & l2 & Hel).
  exists (replay (streams r.2) l1), (replay (streams r.2) l2 ++ tail).
  rewrite Hh, Hel. unfold replay. rewrite fmap_app, fmap_cons.
  by rewrite <- !app_assoc.
Qed.

(** ** Any sequence of operations *)

(** An event from the transport, or a stop, leaves the topic set as it
    is. *)
Lemma step_event_streams (op : Op) s :
  (∀ r action, op ≠ Call r action) →
  streams (step op s).2 = streams s.
Proof.
  intros Hop. destruct op as [r action| |payload|]; simpl.
  - by destruct (Hop r action).
  - by destruct (on_open_history s) as (k & tail & _ & _ & _ & _ & Hs).
  - unfold _on_message. rewrite bind_run. unfold get. simpl.
    destruct (json_loads payload); [|done].
    unfold call_on_message, call_callback; simpl.
    by destruct (callback_raises _).
  - reflexivity.
Qed.

(** X11: last action wins across reconnections, inbound payloads and
    stops.  For every sequence of operations in which each public call
    came back, a topic that some call names is in the set afterwards
    exactly when the most recent call naming it was a subscribe, and a
    topic that no call names is in the set exactly when it was at the
    start; the events in between change nothing, whether or not their
    handlers raise. *)
Theorem last_action_wins_across_events (ops : list Op) s :
  calls_returned ops s = true →
  ∀ topic,
    topic ∈ streams (run_ops ops s) ↔
    match last_action topic (changes ops) with
    | Some a => a = Action.SUBSCRIBE
    | None => topic ∈ streams s
    end.
Proof.
  revert s. induction ops as [|op ops IH]; intros s Hret topic.
  - reflexivity.
  - simpl in Hret. apply andb_prop in Hret as [Hop Hrest].
    simpl. rewrite (IH _ Hrest topic).
    destruct op as [r a| |payload|].
    + simpl in *. rewrite perform_topic in *.
      rewrite last_action_cons, change_subscription_streams.
      rewrite change_subscription_outcome in Hop.
      destruct (send_raises _ _); [discriminate|].
      destruct (last_action topic (changes ops)); [done|].
      destruct (decide (topic_of r = topic)) as [<-|Hne];
        destruct a; simpl; set_solver.
    + change (changes (Opened :: ops)) with (changes ops).
      rewrite step_event_streams by done. done.
    + change (changes (Received payload :: ops)) with (changes ops).
      rewrite step_event_streams by done. done.
    + change (changes (Stopped :: ops)) with (changes ops).
      rewrite step_event_streams by done. done.
Qed.

(** What one operation appends to the history: sends of commands, each
    observed with its topic in the set, and entries that are no sends. *)
Lemma step_history (op : Op) s :
  ∃ new,
    history (step op s).2 = history s ++ new ∧
    sends_hold_their_topic new ∧
    (∀ t, t ∈ streams (step op s).2 →
          t ∈ streams s ∨ t ∈ sent_topics new).
Proof.
  destruct op as [r a| |payload|]; simpl.
  - rewrite perform_topic.
    exists [SendMessage (command a (topic_of r))
              ({[topic_of r]} ∪ streams s)].
    split; [apply change_subscription_history|]. split.
    + intros m seen Hin. apply list_elem_of_singleton in Hin as [= -> ->].
      exists a, (topic_of r). split; [done|set_solver].
    + intros t. rewrite change_subscription_streams.
      unfold sent_topics, sends; simpl.
      destruct (send_raises _ _); [set_solver|].
      destruct (decide _); set_solver.
  - destruct (on_open_history s) as (k & tail & _ & Hh & Htail & _ & Hs).
    exists (replay (streams s)
              (take k (iteration_order (history s) (streams s))) ++ tail).
    split; [exact Hh|]. split.
    + intros m seen Hin. apply elem_of_app in Hin as [Hin|Hin].
      * apply list_elem_of_fmap in Hin as (t & [= -> ->] & Ht).
        exists Action.SUBSCRIBE, t. split; [done|].
        by apply subseteq_take, iteration_order_elem in Ht.
      * exfalso. apply list_elem_of_split in Hin as (l1 & l2 & ->).
        rewrite sends_app in Htail. by apply app_eq_nil in Htail as [_ ?].
    + intros t. rewrite Hs. by left.
  - exists (match json_loads payload with
            | Some doc => [CallOnMessage (on_message s) doc]
            | None => []
            end).
    unfold _on_message. rewrite bind_run. unfold get. simpl.
    destruct (json_loads payload); simpl.
    + unfold call_on_message, call_callback; simpl.
      destruct (callback_raises _); simpl;
        (split; [done|]; split; [|by left];
         intros m seen Hin; apply list_elem_of_singleton in Hin;
         discriminate).
    + split; [by rewrite app_nil_r|]. split; [|by left].
      intros m seen Hin. inversion Hin.
  - exists [Close]. split; [done|]. split; [|by left].
    intros m seen Hin. apply list_elem_of_singleton in Hin. discriminate.
Qed.

Lemma run_ops_invariants (ops : list Op) s :
  sends_hold_their_topic (history s) →
  (∀ t, t ∈ streams s → t ∈ sent_topics (history s)) →
  sends_hold_their_topic (history (run_ops ops s)) ∧
  (∀ t, t ∈ streams (run_ops ops s) →
        t ∈ sent_topics (history (run_ops ops s))).
Proof.
  revert s. induction ops as [|op ops IH]; intros s Hsends Hreq; [done|].
  simpl. destruct (step_history op s) as (new & Hh & Hnew & Hs).
  apply IH.
  - rewrite Hh. intros m seen Hin.
    apply elem_of_app in Hin as [Hin|Hin]; [by apply Hsends|by apply Hnew].
  - intros t Ht. rewrite Hh, sent_topics_app. apply elem_of_app.
    destruct (Hs t Ht) as [Hold|Hnew']; [left; by apply Hreq|by right].
Qed.

(** X12: on a client built by the constructor, after any sequence of
    operations and whatever the transport did, every message handed to
    the transport is the command of one action for one topic, and that
    topic was in the topic set at the instant of the send.  A subscribe
    is recorded before it is sent and an unsubscribe is erased only after
    it was sent. *)
Theorem every_send_holds_its_topic (ops : list Op)
  (on_message_cb : Callback) (on_open_cb : option Callback) :
  sends_hold_their_topic
    (history (run_ops ops (init on_message_cb on_open_cb))).
Proof.
  apply run_ops_invariants.
  - intros m seen Hin. inversion Hin.
  - intros t Ht. simpl in Ht. set_solver.
Qed.

(** X13: on a client built by the constructor, after any sequence of
    operations and whatever the transport did, every topic in the set is
    the topic of a command that was handed to the transport: the set
    holds nothing that was not requested. *)
Theorem every_member_was_sent (ops : list Op)
  (on_message_cb : Callback) (on_open_cb : option Callback) :
  ∀ t, t ∈ streams (run_ops ops (init on_message_cb on_open_cb)) →
       t ∈ sent_topics
             (history (run_ops ops (init on_message_cb on_open_cb))).
Proof.
  apply run_ops_invariants.
  - intros m seen Hin. inversion Hin.
  - intros t Ht. simpl in Ht. set_solver.
Qed.

End MoreProperties.

(** * Worked examples on concrete clients *)

Section Examples.
Import Fixture.

Example upper_btcusdt : upper "btcusdt" = "BTCUSDT".
Proof. reflexivity. Qed.

(** [f"{level}"] prints an integer in decimal, with its sign. *)
Example pretty_levels : pretty 20%Z = "20" ∧ pretty (-7)%Z = "-7".
Proof. split; vm_compute; reflexivity. Qed.

(** The end-to-end run of the spec: [trades("ETHUSDT")], the transport
    reopens, then [trades("ETHUSDT", action=UNSUBSCRIBE)]. *)
Example end_to_end :
  let run : Py (ext := reliable) unit :=
    trades "ETHUSDT" Action.SUBSCRIBE;;
    _on_open;;
    trades "ETHUSDT" Action.UNSUBSCRIBE in
  (run fresh).1 = Return () ∧
  sends (history (run fresh).2) =
    [{| method := "SUBSCRIBE";
        params := ["spot@public.deals.v3.api@ETHUSDT"] |};
     {| method := "SUBSCRIBE";
        params := ["spot@public.deals.v3.api@ETHUSDT"] |};
     {| method := "UNSUBSCRIBE";
        params := ["spot@public.deals.v3.api@ETHUSDT"] |}] ∧
  elements (streams (run fresh).2) = [].
Proof. vm_compute. repeat split. Qed.

(** When the send raises, an unsubscribe leaves its topic in the set, also
    a topic that was not a member before the call. *)
Example unsubscribe_while_disconnected :
  let r :=
    _change_subscription (ext := disconnected) "A" Action.UNSUBSCRIBE fresh
  in
  r.1 = Raise TransportError ∧ elements (streams r.2) = ["A"].
Proof. vm_compute. repeat split. Qed.

(** C1, counterexample: level 7 is none of 5, 10 and 20, yet
    partialDepth("ethusdt", 7) on a fresh client returns normally, hands
    the command for spot@public.limit.depth.v3.api@ETHUSDT@7 to the
    transport and changes the topic set. *)
Lemma partial_depth_level_7_is_sent :
  let s := fresh (ext := reliable) in
  let r := partial_depth "ethusdt" 7 Action.SUBSCRIBE s in
  (7 ≠ 5 ∧ 7 ≠ 10 ∧ 7 ≠ 20)%Z ∧
  r.1 = Return () ∧
  sends (history r.2) =
    [{| method := "SUBSCRIBE";
        params := ["spot@public.limit.depth.v3.api@ETHUSDT@7"] |}] ∧
  streams r.2 ≠ streams s.
Proof.
  cbn zeta. split; [lia|]. split; [reflexivity|]. split; [reflexivity|].
  unfold partial_depth. rewrite change_subscription_streams. simpl.
  intros Heq.
  assert (Hin : upper "ethusdt" ∈ (∅ : gset string)); [|set_solver].
  revert Heq. set_solver.
Qed.

(** C2, counterexample: unsubscribing, on a fresh client, a topic that is
    not in the set: the send does not observe the set the call started
    with (the empty set), it observes the set holding the topic. *)
Lemma unsubscribe_send_sees_changed_set :
  let s := fresh (ext := reliable) in
  let r :=
    _change_subscription "spot@public.deals.v3.api@ETHUSDT"
      Action.UNSUBSCRIBE s in
  ¬ (∀ m seen, SendMessage m seen ∈ history r.2 → seen = streams s).
Proof.
  cbn zeta. intros Hclaim.
  rewrite change_subscription_history in Hclaim.
  specialize (Hclaim _ _ (list_elem_of_here _ _)).
  simpl in Hclaim. set_solver.
Qed.

(** C10, witness: unsubscribing "A" on a client that holds "B" only. *)
Lemma unsubscribe_non_member_witness :
  let s := (_change_subscription (ext := reliable) "B" Action.SUBSCRIBE
              fresh).2 in
  let r := _change_subscription "A" Action.UNSUBSCRIBE s in
  "A" ∉ streams s ∧
  send_raises (history s) (command Action.UNSUBSCRIBE "A") = false ∧
  r.1 = Return () ∧
  sends (history r.2) =
    sends (history s) ++ [{| method := "UNSUBSCRIBE"; params := ["A"] |}] ∧
  length (history r.2) = S (length (history s)) ∧
  streams r.2 = streams s.
Proof.
  cbn zeta.
  assert (Hnot : "A" ∉ streams (_change_subscription (ext := reliable) "B"
                                  Action.SUBSCRIBE fresh).2).
  { apply (bool_decide_unpack _). vm_compute. exact I. }
  split; [exact Hnot|]. split; [reflexivity|].
  apply (unsubscribe_non_member_sends_and_keeps_set (ext := reliable)
           "A" _ Hnot eq_refl).
Defined.

(** C4, witness: the transport opens on a client that subscribed to "A"
    and to "B". *)
Lemma on_open_replay_witness :
  let s := (run_calls (ext := reliable)
              [("A", Action.SUBSCRIBE); ("B", Action.SUBSCRIBE)] fresh).2 in
  let after := (_on_open s).2 in
  elements (streams s) = ["A"; "B"] ∧
  replay_sends_return s ∧
  (∃ order,
     order ≡ₚ elements (streams s) ∧
     history after =
       history s ++
         ((λ t, SendMessage {| method := "SUBSCRIBE"; params := [t] |}
                  (streams s)) <$> order) ++
         match on_open s with Some cb => [CallOnOpen cb] | None => [] end) ∧
  length (sends (history after)) =
    length (sends (history s)) + size (streams s) ∧
  (∀ t, length (filter (λ x, x = t) (sent_topics (history after))) =
        length (filter (λ x, x = t) (sent_topics (history s))) +
          (if decide (t ∈ streams s) then 1 else 0)) ∧
  streams after = streams s.
Proof.
  cbn zeta. split; [vm_compute; reflexivity|].
  assert (Hsend : replay_sends_return
                    (run_calls (ext := reliable)
                       [("A", Action.SUBSCRIBE); ("B", Action.SUBSCRIBE)]
                       fresh).2).
  { intros sent t rest _. reflexivity. }
  split; [exact Hsend|].
  exact (on_open_replays_every_topic_then_calls_back (ext := reliable) _
           Hsend).
Defined.

(** C4, counterexample: "A" and "B" are subscribed while the transport is
    not connected, so that both are in the set, and the transport reports
    that it opened while its sends still raise.  The handler makes one
    send for the two topics, raises, and does not call the registered
    open callback. *)
Lemma on_open_stops_at_a_raising_send :
  let s :=
    (_change_subscription (ext := disconnected) "B" Action.SUBSCRIBE
       (_change_subscription "A" Action.SUBSCRIBE fresh).2).2 in
  let r := _on_open s in
  elements (streams s) = ["A"; "B"] ∧
  on_open s = Some (callback 1) ∧
  r.1 = Raise TransportError ∧
  history r.2 =
    history s ++
      [SendMessage {| method := "SUBSCRIBE"; params := ["A"] |} (streams s)].
Proof. vm_compute. repeat split. Qed.


(** C10, counterexample: "A" is not in the set of a fresh client; its
    unsubscribe on a transport whose send raises hands over the one
    UNSUBSCRIBE command, and the set after the call is not the set before
    it: it holds "A". *)
Lemma unsubscribe_non_member_changes_set_when_send_raises :
  let s := fresh (ext := disconnected) in
  let r := _change_subscription "A" Action.UNSUBSCRIBE s in
  ("A" ∉ streams s) ∧
  sends (history r.2) =
    sends (history s) ++ [{| method := "UNSUBSCRIBE"; params := ["A"] |}] ∧
  streams r.2 ≠ streams s.
Proof.
  cbn zeta. split; [|split].
  - apply (bool_decide_unpack _). vm_compute. exact I.
  - reflexivity.
  - intros Heq.
    assert (Hin : "A" ∈ streams (_change_subscription (ext := disconnected)
                                   "A" Action.UNSUBSCRIBE fresh).2).
    { apply (bool_decide_unpack _). vm_compute. exact I. }
    rewrite Heq in Hin. simpl in Hin. set_solver.
Qed.


End Examples.

(** * Worked examples for the further properties *)

Section MoreExamples.
Import Fixture Scenario.

(** X1, witness: trades and book_ticker on one symbol. *)
Lemma topics_of_different_methods_witness :
  method_name (Trades "btcusdt") ≠ method_name (BookTicker "btcusdt") ∧
  topic_of (Trades "btcusdt") ≠ topic_of (BookTicker "btcusdt").
Proof.
  assert (Hm : method_name (Trades "btcusdt")
               ≠ method_name (BookTicker "btcusdt")) by discriminate.
  split; [exact Hm|].
  exact (topics_of_different_methods_differ _ _ Hm).
Defined.

(** X3, witness: two spellings of one symbol. *)
Lemma symbol_case_witness :
  upper "btcusdt" = upper "BtcUsdt" ∧
  (∀ action,
     trades (ext := reliable) "btcusdt" action = trades "BtcUsdt" action) ∧
  (∀ interval action,
     klines (ext := reliable) "btcusdt" interval action =
       klines "BtcUsdt" interval action) ∧
  (∀ action,
     diff_depth (ext := reliable) "btcusdt" action =
       diff_depth "BtcUsdt" action) ∧
  (∀ level action,
     partial_depth (ext := reliable) "btcusdt" level action =
       partial_depth "BtcUsdt" level action) ∧
  (∀ action,
     book_ticker (ext := reliable) "btcusdt" action =
       book_ticker "BtcUsdt" action).
Proof.
  split; [reflexivity|].
  exact (symbol_case_is_ignored (ext := reliable) "btcusdt" "BtcUsdt" eq_refl).
Defined.

(** X4, witness: subscribing to "A" on a fresh client leaves "B" out. *)
Lemma change_subscription_frame_witness :
  "B" ≠ "A" ∧
  ("B" ∈ streams (_change_subscription (ext := reliable) "A"
                    Action.SUBSCRIBE fresh).2 ↔
   "B" ∈ streams (fresh (ext := reliable))).
Proof.
  assert (Hne : "B" ≠ "A") by discriminate.
  split; [exact Hne|].
  exact (change_subscription_frame (ext := reliable) "A" Action.SUBSCRIBE
           fresh "B" Hne).
Defined.

(** X5, witness: subscribe and unsubscribe "A" on a client holding "B". *)
Lemma subscribe_then_unsubscribe_witness :
  let s := (_change_subscription (ext := reliable) "B" Action.SUBSCRIBE
              fresh).2 in
  let once := (_change_subscription "A" Action.SUBSCRIBE s).2 in
  let r := _change_subscription "A" Action.UNSUBSCRIBE once in
  ("A" ∉ streams s) ∧ r.1 = Return () ∧
  streams r.2 = streams s ∧
  sends (history r.2) =
    sends (history s) ++
      [command Action.SUBSCRIBE "A"; command Action.UNSUBSCRIBE "A"].
Proof.
  cbn zeta.
  assert (Hnot : "A" ∉ streams (_change_subscription (ext := reliable) "B"
                                  Action.SUBSCRIBE fresh).2).
  { apply (bool_decide_unpack _). vm_compute. exact I. }
  split; [exact Hnot|]. split; [reflexivity|].
  exact (subscribe_then_unsubscribe_restores (ext := reliable) "A" _ Hnot
           eq_refl).
Defined.

(** X6, witness: three calls on a fresh client. *)
Lemma run_calls_sends_witness :
  let calls :=
    [("A", Action.SUBSCRIBE); ("B", Action.SUBSCRIBE);
     ("A", Action.UNSUBSCRIBE)] in
  let s := fresh (ext := reliable) in
  (run_calls calls s).1 = Return () ∧
  sends (history (run_calls calls s).2) =
    sends (history s) ++ ((λ c, command c.2 c.1) <$> calls).
Proof.
  cbn zeta. split; [reflexivity|].
  apply (run_calls_sends_in_order (ext := reliable)). reflexivity.
Defined.


(** X9, witness: the subscribe is made before the transport is connected,
    so its send raises; the transport then opens. *)
Lemma subscribe_is_replayed_witness :
  let topic := "spot@public.deals.v3.api@BTCUSDT" in
  let s := fresh (ext := connects_late) in
  let r := _change_subscription topic Action.SUBSCRIBE s in
  r.1 = Raise TransportError ∧
  (_on_open r.2).1 = Return () ∧
  topic ∈ streams (_on_open r.2).2 ∧
  length (filter (λ x, x = topic)
            (sent_topics (history (_on_open r.2).2))) =
    length (filter (λ x, x = topic) (sent_topics (history s))) + 2.
Proof.
  cbn zeta. split; [reflexivity|]. split; [vm_compute; reflexivity|].
  apply (subscribe_is_replayed_on_open (ext := connects_late)).
  vm_compute; reflexivity.
Defined.

(** X10, witness: "A" and "B" are subscribed, "A" is unsubscribed, the
    transport opens. *)
Lemma unsubscribed_topic_witness :
  let s := (run_calls (ext := reliable)
              [("A", Action.SUBSCRIBE); ("B", Action.SUBSCRIBE)] fresh).2 in
  let r := _change_subscription "A" Action.UNSUBSCRIBE s in
  r.1 = Return () ∧
  ("A" ∉ streams (_on_open r.2).2) ∧
  filter (λ x, x = "A") (sent_topics (history (_on_open r.2).2)) =
    filter (λ x, x = "A") (sent_topics (history r.2)).
Proof.
  cbn zeta. split; [reflexivity|].
  apply (unsubscribed_topic_is_not_replayed (ext := reliable)).
  reflexivity.
Defined.

(** X14, witness: "A" is unsubscribed on a fresh client before the
    transport is connected; the transport then opens. *)
Lemma failed_unsubscribe_witness :
  let r :=
    _change_subscription (ext := connects_late) "A" Action.UNSUBSCRIBE fresh
  in
  r.1 = Raise TransportError ∧
  (_on_open r.2).1 = Return () ∧
  "A" ∈ streams (_on_open r.2).2 ∧
  ∃ before after,
    history (_on_open r.2).2 =
      history r.2 ++ before ++
        [SendMessage (command Action.SUBSCRIBE "A") (streams r.2)] ++ after.
Proof.
  cbn zeta. split; [reflexivity|]. split; [vm_compute; reflexivity|].
  apply (failed_unsubscribe_is_subscribed_on_open (ext := connects_late)).
  - reflexivity.
  - vm_compute; reflexivity.
Defined.

(** X11, witness: the day of [Scenario.day] on a fresh client. *)
Lemma last_action_wins_across_events_witness :
  calls_returned (ext := reliable) day fresh = true ∧
  ∀ topic,
    topic ∈ streams (run_ops (ext := reliable) day fresh) ↔
    match last_action topic (changes day) with
    | Some a => a = Action.SUBSCRIBE
    | None => topic ∈ streams (fresh (ext := reliable))
    end.
Proof.
  split; [vm_compute; reflexivity|].
  apply (last_action_wins_across_events (ext := reliable)).
  vm_compute; reflexivity.
Defined.

(** X13, witness: after the day of [Scenario.day] the partial-depth topic
    is in the set, and it was sent. *)
Lemma every_member_was_sent_witness :
  let t := "spot@public.limit.depth.v3.api@ETHUSDT@20" in
  let after :=
    run_ops (ext := reliable) day (init (callback 0) (Some (callback 1))) in
  t ∈ streams after ∧ t ∈ sent_topics (history after).
Proof.
  cbn zeta.
  assert (Hin : "spot@public.limit.depth.v3.api@ETHUSDT@20" ∈
                streams (run_ops (ext := reliable) day
                           (init (callback 0) (Some (callback 1))))).
  { apply (bool_decide_unpack _). vm_compute. exact I. }
  split; [exact Hin|].
  exact (every_member_was_sent (ext := reliable) day _ _ _ Hin).
Defined.

(** An open callback that raises: the handler has made its sends and
    called the callback, and ends with the callback's exception. *)
Example open_callback_raises :
  let s := (run_calls (ext := raising_callbacks)
              [("A", Action.SUBSCRIBE); ("B", Action.SUBSCRIBE)] fresh).2 in
  (_on_open s).1 = Raise CallbackError ∧
  sent_topics (history (_on_open s).2) = ["A"; "B"; "A"; "B"] ∧
  last (history (_on_open s).2) = Some (CallOnOpen (callback 1)).
Proof. vm_compute. repeat split. Qed.

(** A message handler that raises: the dispatch ends with its exception,
    after the one call of the handler. *)
Example message_handler_raises :
  let r := _on_message (ext := raising_callbacks) "{}" fresh in
  r.1 = Raise CallbackError ∧
  history r.2 = [CallOnMessage (callback 0) "{}"].
Proof. vm_compute. repeat split. Qed.

(** The same replay under another order of iteration. *)
Example replay_in_reverse_order :
  let s := (run_calls (ext := reversed)
              [("A", Action.SUBSCRIBE); ("B", Action.SUBSCRIBE)] fresh).2 in
  (_on_open s).1 = Return () ∧
  sent_topics (history (_on_open s).2) = ["A"; "B"; "B"; "A"].
Proof. vm_compute. repeat split. Qed.

(** The day of [Scenario.day], run: what is left in the set, and the
    topics the transport was handed (the replay in the middle follows the
    order in which [elements] lists the set). *)
Example day_runs :
  let after := run_ops (ext := reliable) day fresh in
  elements (streams after) =
    ["spot@public.limit.depth.v3.api@ETHUSDT@20";
     "spot@private.deals.v3.api"] ∧
  sent_topics (history after) =
    ["spot@public.deals.v3.api@BTCUSDT";
     "spot@public.limit.depth.v3.api@ETHUSDT@20";
     "spot@public.limit.depth.v3.api@ETHUSDT@20";
     "spot@public.deals.v3.api@BTCUSDT";
     "spot@public.deals.v3.api@BTCUSDT";
     "spot@private.deals.v3.api"].
Proof. vm_compute. split; reflexivity. Qed.

End MoreExamples.
